(** * The macros of [src/macros.hpp]

    The header defines three macros: [ENSURE_INIT] (a pointer guard that only
    exists when [NDEBUG] is not defined), [EXPECTED_VOID] (print the error of a
    [std::expected<void, std::string>] and leave with status 1) and [NOEXCEPT]
    (the [noexcept] specifier, switched by [NOEXCEPT_ENABLED]).

    A macro receives an argument {e expression}, not a value: the expression
    may read and write the program's memory, print, throw or end the process,
    and the expansion decides how often it is evaluated.  Expressions and
    expansions are therefore computations over the state of the running
    process.  The expression is pasted as text: where the expansion declares a
    local of its own, a name in the argument can come to denote that local. *)

From Stdlib Require Import String Ascii NArith ZArith List Bool Lia DecimalString.
Import ListNotations.
Local Open Scope string_scope.

(** ** Text *)

(** The line feed character, written [\n] in the source. *)
Definition LF : string := String (ascii_of_nat 10) EmptyString.

(** Addresses: a raw pointer is its numeric value, and 0 is the null pointer. *)
Definition pointer := N.
Definition nullptr : pointer := 0%N.

(** The contextual conversion of a pointer to [bool], as in [(ptr) ? a : b]. *)
Definition to_bool (p : pointer) : bool := negb (N.eqb p 0).

(** [%d] of [printf]: the decimal digits of an [int], with a minus sign when
    negative. *)
Definition fmt_d (n : Z) : string := NilZero.string_of_int (Z.to_int n).

(** The arguments [printf] takes for the conversions the header uses. *)
Inductive printf_arg : Type :=
| arg_s (s : string)      (* const char*, for %s; the characters before the NUL *)
| arg_d (n : Z)           (* int, for %d *)
| arg_p (p : pointer).    (* const void*, for %p *)

Section Printf.
(** What [%p] prints is implementation-defined (glibc prints [(nil)] for the
    null pointer and [0x...] in hexadecimal otherwise). *)
Variable fmt_p : pointer -> string.

(** The text [printf] produces from a format and its arguments.  A conversion
    whose argument is missing or of another type is undefined in C; the
    output stops there. *)
Fixpoint printf_text (fmt : string) (args : list printf_arg) : string :=
  match fmt with
  | EmptyString => EmptyString
  | String "%" (String c rest) =>
      match c, args with
      | "%"%char, _ => String "%" (printf_text rest args)
      | "s"%char, arg_s s :: args' => s ++ printf_text rest args'
      | "d"%char, arg_d n :: args' => fmt_d n ++ printf_text rest args'
      | "p"%char, arg_p p :: args' => fmt_p p ++ printf_text rest args'
      | _, _ => EmptyString
      end
  | String c rest => String c (printf_text rest args)
  end.
End Printf.

(** The text [std::format] produces for a format whose replacement fields are
    all [{}] and whose arguments are strings; [{{] and [}}] are the escaped
    braces. *)
Fixpoint format_text (fmt : string) (args : list string) : string :=
  match fmt with
  | EmptyString => EmptyString
  | String "{" (String "{" rest) => String "{" (format_text rest args)
  | String "}" (String "}" rest) => String "}" (format_text rest args)
  | String "{" (String "}" rest) =>
      match args with
      | a :: args' => a ++ format_text rest args'
      | [] => EmptyString
      end
  | String c rest => String c (format_text rest args)
  end.

(** A glibc-like [%p], used to run the definitions on concrete inputs. *)
Definition hex_digit (d : N) : ascii :=
  if (d <? 10)%N then ascii_of_N (48 + d) else ascii_of_N (87 + d).

Fixpoint hex_digits (fuel : nat) (n : N) (acc : string) : string :=
  match fuel with
  | O => acc
  | S fuel' =>
      let acc' := String (hex_digit (n mod 16)) acc in
      if (n / 16 =? 0)%N then acc' else hex_digits fuel' (n / 16) acc'
  end.

Definition glibc_fmt_p (p : pointer) : string :=
  if (p =? 0)%N then "(nil)" else "0x" ++ hex_digits 16 p EmptyString.

(** ** The running process *)

(** How a process ends: [std::exit(status)], [std::abort()], or
    [std::terminate()]. *)
Inductive termination : Type :=
| Exit (status : Z)
| Abort
| Terminate.

Section Process.
(** The program's memory, and the values it throws. *)
Variable state : Type.
Variable exn : Type.

(** What can be observed of a process: its memory and the bytes written so
    far to the standard output and to the error stream. *)
Record world : Type := World {
  mem : state;
  out : string;
  err : string
}.

(** The result of running a piece of code: it yields a value, an exception
    leaves it, or the process has ended. *)
Inductive outcome (A : Type) : Type :=
| Continue (a : A) (w : world)
| Thrown (x : exn) (w : world)
| Terminated (t : termination) (w : world).
Arguments Continue {A} a w.
Arguments Thrown {A} x w.
Arguments Terminated {A} t w.

Definition M (A : Type) : Type := world -> outcome A.

Definition ret {A} (a : A) : M A := fun w => Continue a w.

Definition bind {A B} (m : M A) (k : A -> M B) : M B :=
  fun w =>
    match m w with
    | Continue a w' => k a w'
    | Thrown x w' => Thrown x w'
    | Terminated t w' => Terminated t w'
    end.

(** The state a piece of code leaves behind, however it ended. *)
Definition final {A} (o : outcome A) : world :=
  match o with
  | Continue _ w => w
  | Thrown _ w => w
  | Terminated _ w => w
  end.

(** Writing to the two streams. *)
Definition write_out (s : string) : M unit :=
  fun w => Continue tt {| mem := mem w; out := out w ++ s; err := err w |}.

Definition write_err (s : string) : M unit :=
  fun w => Continue tt {| mem := mem w; out := out w; err := err w ++ s |}.

(** [std::exit], [std::abort] and [std::terminate] do not return. *)
Definition std_exit {A} (status : Z) : M A := fun w => Terminated (Exit status) w.
Definition std_abort {A} : M A := fun w => Terminated Abort w.
Definition std_terminate {A} : M A := fun w => Terminated Terminate w.

(** [throw x] and [try { body } catch (...) { handler }]. *)
Definition throw {A} (x : exn) : M A := fun w => Thrown x w.

Definition try_catch {A} (body : M A) (handler : exn -> M A) : M A :=
  fun w =>
    match body w with
    | Thrown x w' => handler x w'
    | o => o
    end.
End Process.

Arguments World {state} mem out err.
Arguments mem {state} w.
Arguments out {state} w.
Arguments err {state} w.
Arguments Continue {state exn A} a w.
Arguments Thrown {state exn A} x w.
Arguments Terminated {state exn A} t w.
Arguments ret {state exn A} a w.
Arguments bind {state exn A B} m k w.
Arguments final {state exn A} o.
Arguments write_out {state exn} s w.
Arguments write_err {state exn} s w.
Arguments std_exit {state exn A} status w.
Arguments std_abort {state exn A} w.
Arguments std_terminate {state exn A} w.
Arguments throw {state exn A} x w.
Arguments try_catch {state exn A} body handler w.

Declare Scope proc_scope.
Delimit Scope proc_scope with proc.
Notation "x <- m ;; k" := (bind m (fun x => k))
  (at level 100, m at next level, right associativity) : proc_scope.
Notation "m ;; k" := (bind m (fun _ => k))
  (at level 100, right associativity) : proc_scope.
Local Open Scope proc_scope.

(** ** The library calls the macros make *)

Section Calls.
Context {state exn : Type}.
Variable fmt_p : pointer -> string.

(** [::fprintf(stderr, fmt, args...)]: the formatted text goes to the error
    stream; the call returns the number of characters written. *)
Definition fprintf_stderr (fmt : string) (args : list printf_arg) : M state exn Z :=
  let text := printf_text fmt_p fmt args in
  (write_err text ;; ret (Z.of_nat (String.length text))).

(** Whether a write to the standard output fails in a given state of the
    process, and if so with which exception, and what part of the text reached
    the stream all the same. *)
Variable stdout_error : world state -> option (exn * string).

(** [std::println(fmt, args...)]: the formatted text and a line feed go to
    the standard output.  When the stream cannot be written the call throws
    ([std::system_error]) instead of returning. *)
Definition println (fmt : string) (args : list string) : M state exn unit :=
  fun w =>
    match stdout_error w with
    | Some (x, written) =>
        Thrown x {| mem := mem w; out := out w ++ written; err := err w |}
    | None => write_out (format_text fmt args ++ LF) w
    end.
End Calls.

(** [std::expected<void, std::string>]: success without a value, or an error
    message. *)
Inductive expected_void : Type :=
| has_value
| unexpected (error : string).

(** ** The macros *)

Section Macros.
Context {state exn : Type}.
Variable fmt_p : pointer -> string.

(** [ENSURE_INIT(ptr)].  [NDEBUG] tells whether the macro [NDEBUG] is defined
    (a release build); [__FILE__] and [__LINE__] are those of the place of
    the call, and [ptr_text] is [#ptr], the spelling of the argument.

    With [NDEBUG] the expansion is [(void)0]: [ptr] does not occur in it.
    Without, it is
    [((ptr) ? void() : (::fprintf(stderr, ..., static_cast<const void *>(ptr)), std::abort()))]:
    [ptr] occurs once as the condition and once more among the arguments of
    [fprintf], the only one of them that is not a constant. *)
Definition ENSURE_INIT (NDEBUG : bool) (__FILE__ : string) (__LINE__ : N)
    (ptr_text : string) (ptr : M state exn pointer) : M state exn unit :=
  if NDEBUG then
    ret tt
  else
    (cond <- ptr ;;
     if to_bool cond then
       ret tt
     else
       (value <- ptr ;;
        fprintf_stderr fmt_p
          ("[%s:%d] Uninitialised pointer: %s (value=%p)" ++ LF)
          [arg_s __FILE__; arg_d (Z.of_N __LINE__); arg_s ptr_text; arg_p value] ;;
        std_abort)).

(** [EXPECTED_VOID(expr)]: a statement expression that declares a local
    [expected], initialises it from [expr] and, when it holds no value, prints
    its error and exits.

    The text of the argument is evaluated as the initialiser in
    [std::expected<void, std::string> expected = (expr);], where the name
    [expected] already denotes the local that is being declared.  [expr] is
    therefore the argument as a function of what the name [expected] denotes
    where it is evaluated: constant for an argument that does not use the
    name.  The expansion evaluates it with its own local, which is not
    initialised yet; reading it has no defined behaviour, and [indeterminate]
    is the value such a read happens to find. *)
Definition EXPECTED_VOID (stdout_error : world state -> option (exn * string))
    (indeterminate : expected_void)
    (expr : expected_void -> M state exn expected_void) : M state exn unit :=
  (expected <- expr indeterminate ;;
   match expected with
   | unexpected error => (println stdout_error "{}" [error] ;; std_exit 1)
   | has_value => ret tt
   end).
End Macros.

(** ** [NOEXCEPT] *)

(** What a function declaration says about exceptions: [noexcept], or nothing. *)
Inductive exception_specification : Type :=
| noexcept
| unspecified.

(** [NOEXCEPT] is [noexcept] when [NOEXCEPT_ENABLED] is {e not} defined, and
    empty when it is. *)
Definition NOEXCEPT (NOEXCEPT_ENABLED : bool) : exception_specification :=
  if NOEXCEPT_ENABLED then unspecified else noexcept.

(** The [noexcept(f())] operator on a call of a function declared with [spec]. *)
Definition noexcept_operator (spec : exception_specification) : bool :=
  match spec with
  | noexcept => true
  | unspecified => false
  end.

(** Calling a function declared with [spec]: an exception that leaves the body
    of a [noexcept] function calls [std::terminate]; otherwise it reaches the
    caller. *)
Definition call {state exn A} (spec : exception_specification)
    (body : M state exn A) : M state exn A :=
  match spec with
  | noexcept => try_catch body (fun _ => std_terminate)
  | unspecified => body
  end.

(** A call of [T f() NOEXCEPT { body }].  The body can ask, with the
    [noexcept] operator, whether a function declared with [NOEXCEPT] (itself
    included) is [noexcept]; the answer is fixed when the program is built,
    and [body q] is the body where it is [q]. *)
Definition annotated_call {state exn A} (NOEXCEPT_ENABLED : bool)
    (body : bool -> M state exn A) : M state exn A :=
  call (NOEXCEPT NOEXCEPT_ENABLED)
       (body (noexcept_operator (NOEXCEPT NOEXCEPT_ENABLED))).

(** ** Counting evaluations *)

(** To count how often an expansion evaluates its argument, the argument is
    run in a memory that carries a counter next to the program's own memory;
    every evaluation of [counted e] adds one to it and otherwise does what [e]
    does. *)
Section Counting.
Context {state exn : Type}.

Definition forget (w : world (nat * state)) : world state :=
  {| mem := snd (mem w); out := out w; err := err w |}.

Definition restore (n : nat) (w : world state) : world (nat * state) :=
  {| mem := (n, mem w); out := out w; err := err w |}.

Definition counted {A} (e : M state exn A) : M (nat * state) exn A :=
  fun w =>
    let n := S (fst (mem w)) in
    match e (forget w) with
    | Continue a w' => Continue a (restore n w')
    | Thrown x w' => Thrown x (restore n w')
    | Terminated t w' => Terminated t (restore n w')
    end.

(** The counter after a piece of code has run. *)
Definition evaluations {A} (o : outcome (nat * state) exn A) : nat :=
  fst (mem (final o)).
End Counting.

(** ** The diagnostic of the pointer guard, as the specification words it *)

(** [[<file>:<line>] Uninitialised pointer: <expr> (value=<addr>)], one line. *)
Definition diagnostic_line (fmt_p : pointer -> string) (file : string) (line : N)
    (expr : string) (addr : pointer) : string :=
  "[" ++ file ++ ":" ++ fmt_d (Z.of_N line) ++ "] Uninitialised pointer: " ++ expr
      ++ " (value=" ++ fmt_p addr ++ ")" ++ LF.

(** ** Programs the definitions are run on *)

(** A pointer variable [p]: the memory is the value of [p], and the expression
    [p] reads it. *)
Definition read_p : M pointer string pointer := fun w => Continue (mem w) w.

(** [next()], a call with a side effect: the memory is a counter, each call
    adds one to it and returns the pointer [p]. *)
Definition next (p : pointer) : M nat string pointer :=
  fun w => Continue p {| mem := S (mem w); out := out w; err := err w |}.

(** [save()], a fallible call with a side effect: it adds one to the counter in
    memory and returns [r]. *)
Definition save (r : expected_void) : M nat string expected_void :=
  fun w => Continue r {| mem := S (mem w); out := out w; err := err w |}.

(** A standard output that can always be written, and one that is closed. *)
Definition never_fails {state exn : Type} : world state -> option (exn * string) :=
  fun _ => None.

Definition closed_stdout {state : Type} : world state -> option (string * string) :=
  fun _ => Some ("system_error", "").

(** The argument [expected]: it reads whatever the name denotes where it is
    evaluated. *)
Definition named_expected {state exn : Type}
    : expected_void -> M state exn expected_void :=
  fun expected => ret expected.

(** [void risky() NOEXCEPT { throw "bad"; }], and a caller that catches:
    [try { risky(); } catch (...) { std::println("{}", "recovered"); }]. *)
Definition risky : M unit string unit := throw "bad".

Definition guarded_caller (NOEXCEPT_ENABLED : bool) : M unit string unit :=
  try_catch (annotated_call NOEXCEPT_ENABLED (fun _ => risky))
            (fun _ => println never_fails "{}" ["recovered"]).

(** [void quiet() NOEXCEPT { std::println("{}", "done"); }] throws nothing. *)
Definition quiet : M unit string unit := println never_fails "{}" ["done"].

(** [void report() NOEXCEPT
      { std::println("{}", noexcept(report()) ? "strict" : "lenient"); }]
    throws nothing and prints what the [noexcept] operator answers. *)
Definition report (strict : bool) : M unit string unit :=
  println never_fails "{}" [if strict then "strict" else "lenient"].

(** [take()], a call that returns the null pointer the first time and throws
    from then on; the memory counts the calls. *)
Definition take : M nat string pointer :=
  fun w =>
    let w' := {| mem := S (mem w); out := out w; err := err w |} in
    match mem w with
    | O => Continue nullptr w'
    | S _ => Thrown "gone" w'
    end.

(** How often the character [c] occurs in [s]. *)
Fixpoint occurrences (c : ascii) (s : string) : nat :=
  match s with
  | EmptyString => 0
  | String c' s' => (if Ascii.eqb c c' then 1 else 0) + occurrences c s'
  end.

(** The line feed as a character. *)
Definition LF_char : ascii := ascii_of_nat 10.

(** ** Text lemmas *)

Lemma append_empty_r (s : string) : s ++ "" = s.
Proof.
  induction s as [| c s IH]; simpl; [reflexivity | now rewrite IH].
Qed.

Lemma println_braces {state exn : Type}
    (stdout_error : world state -> option (exn * string)) (m : string)
    (w : world state) :
  stdout_error w = None ->
  println stdout_error "{}" [m] w
  = Continue tt {| mem := mem w; out := out w ++ m ++ LF; err := err w |}.
Proof.
  intros H. unfold println, write_out. rewrite H. simpl.
  now rewrite append_empty_r.
Qed.

Lemma println_fails {state exn : Type}
    (stdout_error : world state -> option (exn * string)) (fmt : string)
    (args : list string) (w : world state) x written :
  stdout_error w = Some (x, written) ->
  println stdout_error fmt args w
  = Thrown x {| mem := mem w; out := out w ++ written; err := err w |}.
Proof.
  intros H. unfold println. now rewrite H.
Qed.

Lemma guard_format (fmt_p : pointer -> string) (file : string) (line : N)
    (expr : string) (addr : pointer) :
  printf_text fmt_p ("[%s:%d] Uninitialised pointer: %s (value=%p)" ++ LF)
    [arg_s file; arg_d (Z.of_N line); arg_s expr; arg_p addr]
  = diagnostic_line fmt_p file line expr addr.
Proof.
  reflexivity.
Qed.

Lemma to_bool_null (p : pointer) : to_bool p = false <-> p = nullptr.
Proof.
  unfold to_bool, nullptr.
  rewrite negb_false_iff.
  apply N.eqb_eq.
Qed.

Lemma to_bool_nonnull (p : pointer) : to_bool p = true <-> p <> nullptr.
Proof.
  unfold to_bool, nullptr.
  rewrite negb_true_iff.
  apply N.eqb_neq.
Qed.

(** ** [EXPECTED_VOID] *)

Section ExpectedVoid.
Context {state exn : Type}.
Variable stdout_error : world state -> option (exn * string).
Variable indeterminate : expected_void.
Implicit Types (expr : expected_void -> M state exn expected_void).
Implicit Types (e : M state exn expected_void) (w : world state).

(** The expansion runs [expr] once, where the name [expected] denotes its own
    local, and then only looks at the value. *)
Lemma expected_void_step expr w r w1 :
  expr indeterminate w = Continue r w1 ->
  EXPECTED_VOID stdout_error indeterminate expr w
  = EXPECTED_VOID stdout_error indeterminate (fun _ => ret r) w1.
Proof.
  intros H. unfold EXPECTED_VOID, bind, ret. now rewrite H.
Qed.

(** When the argument does not yield a value, neither does the expansion, and
    it adds nothing. *)
Lemma expected_void_thrown expr w x w1 :
  expr indeterminate w = Thrown x w1 ->
  EXPECTED_VOID stdout_error indeterminate expr w = Thrown x w1.
Proof.
  intros H. unfold EXPECTED_VOID, bind. now rewrite H.
Qed.

Lemma expected_void_terminated expr w t w1 :
  expr indeterminate w = Terminated t w1 ->
  EXPECTED_VOID stdout_error indeterminate expr w = Terminated t w1.
Proof.
  intros H. unfold EXPECTED_VOID, bind. now rewrite H.
Qed.

(** The value is an error and the standard output can be written: the message
    and a line feed, then [std::exit(1)]. *)
Lemma expected_void_error_written expr w m w1 :
  expr indeterminate w = Continue (unexpected m) w1 ->
  stdout_error w1 = None ->
  EXPECTED_VOID stdout_error indeterminate expr w
  = Terminated (Exit 1) {| mem := mem w1; out := out w1 ++ m ++ LF; err := err w1 |}.
Proof.
  intros H Hs.
  rewrite (expected_void_step _ _ _ _ H).
  unfold EXPECTED_VOID, bind, ret.
  now rewrite (println_braces _ _ _ Hs).
Qed.

(** The value is an error and the standard output cannot be written: the
    exception of [std::println] leaves the expansion, [std::exit] is not
    reached. *)
Lemma expected_void_error_not_written expr w m w1 x written :
  expr indeterminate w = Continue (unexpected m) w1 ->
  stdout_error w1 = Some (x, written) ->
  EXPECTED_VOID stdout_error indeterminate expr w
  = Thrown x {| mem := mem w1; out := out w1 ++ written; err := err w1 |}.
Proof.
  intros H Hs.
  rewrite (expected_void_step _ _ _ _ H).
  unfold EXPECTED_VOID, bind, ret.
  now rewrite (println_fails _ _ _ _ _ _ Hs).
Qed.

(** The value is success: nothing more happens. *)
Lemma expected_void_success expr w w1 :
  expr indeterminate w = Continue has_value w1 ->
  EXPECTED_VOID stdout_error indeterminate expr w = Continue tt w1.
Proof.
  intros H. now rewrite (expected_void_step _ _ _ _ H).
Qed.

(** The memory after the helper is the memory after one evaluation of the
    argument, whatever the argument yields. *)
Lemma expected_void_mem expr w :
  mem (final (EXPECTED_VOID stdout_error indeterminate expr w))
  = mem (final (expr indeterminate w)).
Proof.
  unfold EXPECTED_VOID, bind, println.
  destruct (expr indeterminate w) as [[| m] w1 | x w1 | t w1]; try reflexivity.
  destruct (stdout_error w1) as [[x written] |]; reflexivity.
Qed.

(** C3: the helper evaluates its argument exactly once, on success, on failure,
    when the argument itself does not return and when the message cannot be
    written: the evaluation counter of the counted argument goes up by one,
    and the memory at the end is the memory one evaluation of the argument
    leaves. *)
Theorem expected_void_evaluates_once expr :
  (forall (stdout_error' : world (nat * state) -> option (exn * string))
          (cw : world (nat * state)),
      evaluations (EXPECTED_VOID stdout_error' indeterminate
                     (fun named => counted (expr named)) cw)
      = S (fst (mem cw)))
  /\ (forall w,
         mem (final (EXPECTED_VOID stdout_error indeterminate expr w))
         = mem (final (expr indeterminate w))).
Proof.
  split.
  - intros stdout_error' cw. unfold evaluations, EXPECTED_VOID, bind, counted, println.
    destruct (expr indeterminate (forget cw)) as [[| m] w1 | x w1 | t w1];
      try reflexivity.
    destruct (stdout_error' _) as [[x written] |]; reflexivity.
  - apply expected_void_mem.
Qed.
End ExpectedVoid.

(** C1: the helper does not print the message of every error it is given.  The
    caller holds the error [disk full] in a variable named [expected] and
    writes [EXPECTED_VOID(expected)]: in the caller's scope the argument is
    that error, but in the expansion it reads the helper's own local before
    its initialisation, and the message [disk full] is not printed: an empty
    line and exit status 1 when the read finds an error with an empty message,
    nothing at all and no exit when it finds success. *)
Theorem expected_void_error_lost_on_capture :
  named_expected (exn := string) (unexpected "disk full") (World tt "" "")
  = Continue (unexpected "disk full") (World tt "" "")
  /\ EXPECTED_VOID (exn := string) never_fails (unexpected "") named_expected
       (World tt "" "")
     = Terminated (Exit 1) (World tt LF "")
  /\ EXPECTED_VOID (exn := string) never_fails has_value named_expected
       (World tt "" "")
     = Continue tt (World tt "" "")
  /\ EXPECTED_VOID (exn := string) never_fails (unexpected "") named_expected
       (World tt "" "")
     <> Terminated (Exit 1) (World tt ("disk full" ++ LF) "")
  /\ EXPECTED_VOID (exn := string) never_fails has_value named_expected
       (World tt "" "")
     <> Terminated (Exit 1) (World tt ("disk full" ++ LF) "").
Proof.
  repeat split; discriminate.
Qed.

(** C5: the helper does not let every success through.  The caller holds
    success in a variable named [expected] and writes
    [EXPECTED_VOID(expected)]: in the caller's scope the argument is success,
    but in the expansion it reads the helper's own local before its
    initialisation; when that read finds an error with an empty message the
    helper prints an empty line and the process exits with status 1. *)
Theorem expected_void_success_lost_on_capture :
  named_expected (exn := string) has_value (World tt "" "")
  = Continue has_value (World tt "" "")
  /\ EXPECTED_VOID (exn := string) never_fails (unexpected "") named_expected
       (World tt "" "")
     = Terminated (Exit 1) (World tt LF "")
  /\ EXPECTED_VOID (exn := string) never_fails (unexpected "") named_expected
       (World tt "" "")
     <> Continue tt (World tt "" "").
Proof.
  repeat split. discriminate.
Qed.

(** ** [ENSURE_INIT] *)

Section EnsureInit.
Context {state exn : Type}.
Variable fmt_p : pointer -> string.
Variables (file : string) (line : N) (text : string).
Implicit Types (ptr : M state exn pointer) (w : world state).

(** Debug build, the condition is false: the expansion goes on to evaluate
    [ptr] again, for [fprintf]. *)
Lemma ensure_init_debug_null ptr w w1 :
  ptr w = Continue nullptr w1 ->
  ENSURE_INIT fmt_p false file line text ptr w
  = (value <- ptr ;;
     fprintf_stderr fmt_p ("[%s:%d] Uninitialised pointer: %s (value=%p)" ++ LF)
       [arg_s file; arg_d (Z.of_N line); arg_s text; arg_p value] ;;
     std_abort) w1.
Proof.
  intros H. unfold ENSURE_INIT at 1. unfold bind at 1. now rewrite H.
Qed.

(** Debug build, the condition is true: [void()]. *)
Lemma ensure_init_debug_nonnull ptr w v w1 :
  ptr w = Continue v w1 -> v <> nullptr ->
  ENSURE_INIT fmt_p false file line text ptr w = Continue tt w1.
Proof.
  intros H Hv. apply to_bool_nonnull in Hv.
  unfold ENSURE_INIT, bind. now rewrite H, Hv.
Qed.

(** Release build: [(void)0]. *)
Lemma ensure_init_release ptr w :
  ENSURE_INIT fmt_p true file line text ptr w = Continue tt w.
Proof.
  reflexivity.
Qed.

(** C2: in a debug build, when the argument evaluates to the null pointer, the
    guard appends exactly one line
    [[<file>:<line>] Uninitialised pointer: <expr> (value=<addr>)] to the error
    stream and the process ends by [std::abort], not by [std::exit].  The
    address printed is the value [ptr] has when it is read for [fprintf]; for
    an argument without side effects that is the null pointer that was
    tested. *)
Theorem ensure_init_null_diagnostic_abort ptr w w1 v w2 :
  ptr w = Continue nullptr w1 ->
  ptr w1 = Continue v w2 ->
  ENSURE_INIT fmt_p false file line text ptr w
  = Terminated Abort
      {| mem := mem w2; out := out w2;
         err := err w2 ++ diagnostic_line fmt_p file line text v |}.
Proof.
  intros H1 H2.
  rewrite (ensure_init_debug_null _ _ _ H1).
  unfold bind, fprintf_stderr, bind, write_err, ret, std_abort.
  rewrite H2, guard_format. reflexivity.
Qed.

(** C4: when the argument evaluates to a non-null pointer the guard does not
    end the process and adds no effect of its own: execution continues in the
    state the evaluation of the argument left (debug build) or in the state
    before the call (release build); for an argument that is a plain value the
    state is unchanged in both. *)
Theorem ensure_init_nonnull_no_effect (NDEBUG : bool) ptr w v w1 :
  ptr w = Continue v w1 ->
  v <> nullptr ->
  ENSURE_INIT fmt_p NDEBUG file line text ptr w
  = Continue tt (if NDEBUG then w else w1)
  /\ ENSURE_INIT fmt_p NDEBUG file line text (ret v : M state exn pointer) w
     = Continue tt w.
Proof.
  intros H Hv. destruct NDEBUG.
  - split; apply ensure_init_release.
  - split.
    + exact (ensure_init_debug_nonnull _ _ _ _ H Hv).
    + now apply (ensure_init_debug_nonnull (ret v) w v w).
Qed.

(** C6: in a release build the guard is a no-op for every argument, null or
    not, and even for an argument whose evaluation would print, throw or end
    the process: it yields at once in the unchanged state, so a program with
    the call behaves as the program without it. *)
Theorem ensure_init_release_noop ptr w :
  ENSURE_INIT fmt_p true file line text ptr w = Continue tt w
  /\ (forall (A : Type) (rest : M state exn A),
         (ENSURE_INIT fmt_p true file line text ptr ;; rest) w = rest w).
Proof.
  split; [apply ensure_init_release | reflexivity].
Qed.

(** Debug build, null argument: the memory at the end is the memory a second
    evaluation of [ptr] leaves. *)
Lemma ensure_init_debug_null_mem ptr w w1 :
  ptr w = Continue nullptr w1 ->
  mem (final (ENSURE_INIT fmt_p false file line text ptr w)) = mem (final (ptr w1)).
Proof.
  intros H. rewrite (ensure_init_debug_null _ _ _ H).
  unfold bind. destruct (ptr w1); reflexivity.
Qed.
End EnsureInit.

Section EnsureInitCount.
Context {state exn : Type}.
Variable fmt_p : pointer -> string.
Variables (file : string) (line : N) (text : string).
Implicit Types (ptr : M state exn pointer) (cw : world (nat * state)).

Lemma counted_continue ptr cw v w1 :
  ptr (forget cw) = Continue v w1 ->
  counted ptr cw = Continue v (restore (S (fst (mem cw))) w1).
Proof.
  intros H. unfold counted. now rewrite H.
Qed.

Lemma evaluations_counted ptr cw :
  evaluations (counted ptr cw) = S (fst (mem cw)).
Proof.
  unfold evaluations, counted. destruct (ptr (forget cw)); reflexivity.
Qed.

Lemma ensure_init_release_count ptr cw :
  evaluations (ENSURE_INIT fmt_p true file line text (counted ptr) cw) = fst (mem cw).
Proof.
  reflexivity.
Qed.

Lemma ensure_init_debug_nonnull_count ptr cw v w1 :
  ptr (forget cw) = Continue v w1 -> v <> nullptr ->
  evaluations (ENSURE_INIT fmt_p false file line text (counted ptr) cw) = S (fst (mem cw)).
Proof.
  intros H Hv.
  rewrite (ensure_init_debug_nonnull fmt_p file line text _ _ _ _
             (counted_continue _ _ _ _ H) Hv).
  reflexivity.
Qed.

Lemma ensure_init_debug_null_count ptr cw w1 :
  ptr (forget cw) = Continue nullptr w1 ->
  evaluations (ENSURE_INIT fmt_p false file line text (counted ptr) cw)
  = S (S (fst (mem cw))).
Proof.
  intros H. unfold evaluations.
  rewrite (ensure_init_debug_null_mem fmt_p file line text _ _ _
             (counted_continue _ _ _ _ H)).
  fold (evaluations (counted ptr (restore (S (fst (mem cw))) w1))).
  now rewrite evaluations_counted.
Qed.

Lemma ensure_init_debug_count_bounds ptr cw :
  let n := evaluations (ENSURE_INIT fmt_p false file line text (counted ptr) cw) in
  S (fst (mem cw)) <= n <= S (S (fst (mem cw))).
Proof.
  cbv zeta.
  destruct (ptr (forget cw)) as [v w1 | x w1 | t w1] eqn:H.
  - destruct (N.eq_dec v nullptr) as [-> | Hv].
    + rewrite (ensure_init_debug_null_count _ _ _ H). lia.
    + rewrite (ensure_init_debug_nonnull_count _ _ _ _ H Hv). lia.
  - unfold evaluations, ENSURE_INIT, bind, counted. rewrite H. simpl. lia.
  - unfold evaluations, ENSURE_INIT, bind, counted. rewrite H. simpl. lia.
Qed.
End EnsureInitCount.

Section EnsureInitEvaluations.
Context {state exn : Type}.
Variable fmt_p : pointer -> string.
Variables (file : string) (line : N) (text : string).
Implicit Types (ptr : M state exn pointer) (cw : world (nat * state)).

(** C9: in a debug build, when the argument evaluates to the null pointer, the
    guard evaluates it a second time to get the value it prints: the
    evaluation counter of [counted ptr] goes up by two, and the memory at the
    end is the memory left by evaluating [ptr] again in the state the first
    evaluation left, so the side effects of the argument happen twice. *)
Theorem ensure_init_null_evaluates_twice ptr cw w1 :
  ptr (forget cw) = Continue nullptr w1 ->
  evaluations (ENSURE_INIT fmt_p false file line text (counted ptr) cw)
  = S (S (fst (mem cw)))
  /\ mem (final (ENSURE_INIT fmt_p false file line text ptr (forget cw)))
     = mem (final (ptr w1)).
Proof.
  intros H. split.
  - exact (ensure_init_debug_null_count fmt_p file line text _ _ _ H).
  - exact (ensure_init_debug_null_mem fmt_p file line text _ _ _ H).
Qed.

(** C10: a debug build evaluates the argument at least once on every call, and
    exactly once when it evaluates to a non-null pointer; a release build never
    evaluates it.  So with an argument that has a side effect (here the
    counter) the two builds end in different states even when the pointer is
    not null. *)
Theorem ensure_init_build_modes_differ ptr cw :
  S (fst (mem cw))
    <= evaluations (ENSURE_INIT fmt_p false file line text (counted ptr) cw)
  /\ evaluations (ENSURE_INIT fmt_p true file line text (counted ptr) cw)
     = fst (mem cw)
  /\ (forall v w1,
         ptr (forget cw) = Continue v w1 ->
         v <> nullptr ->
         evaluations (ENSURE_INIT fmt_p false file line text (counted ptr) cw)
         = S (fst (mem cw))
         /\ ENSURE_INIT fmt_p false file line text (counted ptr) cw
            <> ENSURE_INIT fmt_p true file line text (counted ptr) cw).
Proof.
  split; [| split].
  - apply (ensure_init_debug_count_bounds fmt_p file line text ptr cw).
  - apply ensure_init_release_count.
  - intros v w1 H Hv.
    pose proof (ensure_init_debug_nonnull_count fmt_p file line text _ _ _ _ H Hv) as Hd.
    split; [exact Hd |].
    intros Heq. rewrite Heq, ensure_init_release_count in Hd. lia.
Qed.
End EnsureInitEvaluations.

(** [ENSURE_INIT(p)] at [editor.cpp:42] with [p] null, in a debug build. *)
Lemma ensure_init_null_diagnostic_abort_witness :
  ENSURE_INIT glibc_fmt_p false "editor.cpp" 42 "p" read_p (World nullptr "" "")
  = Terminated Abort
      (World nullptr ""
         ("[editor.cpp:42] Uninitialised pointer: p (value=(nil))" ++ LF)).
Proof.
  apply (ensure_init_null_diagnostic_abort glibc_fmt_p "editor.cpp" 42 "p" read_p
           (World nullptr "" "") (World nullptr "" "") nullptr (World nullptr "" ""));
    reflexivity.
Defined.

(** [ENSURE_INIT(next())] with [next()] returning the address 4096: the debug
    build leaves the counter of [next] at 1, the release build at 0. *)
Lemma ensure_init_nonnull_no_effect_witness :
  (ENSURE_INIT glibc_fmt_p false "editor.cpp" 42 "next()" (next 4096%N) (World 0 "" "")
   = Continue tt (World 1 "" "")
   /\ ENSURE_INIT glibc_fmt_p false "editor.cpp" 42 "next()"
        (ret 4096%N : M nat string pointer) (World 0 "" "")
      = Continue tt (World 0 "" ""))
  /\ (ENSURE_INIT glibc_fmt_p true "editor.cpp" 42 "next()" (next 4096%N) (World 0 "" "")
      = Continue tt (World 0 "" "")
      /\ ENSURE_INIT glibc_fmt_p true "editor.cpp" 42 "next()"
           (ret 4096%N : M nat string pointer) (World 0 "" "")
         = Continue tt (World 0 "" "")).
Proof.
  split.
  - apply (ensure_init_nonnull_no_effect glibc_fmt_p "editor.cpp" 42 "next()" false
             (next 4096%N) (World 0 "" "") 4096%N (World 1 "" ""));
      [reflexivity | discriminate].
  - apply (ensure_init_nonnull_no_effect glibc_fmt_p "editor.cpp" 42 "next()" true
             (next 4096%N) (World 0 "" "") 4096%N (World 1 "" ""));
      [reflexivity | discriminate].
Defined.

(** [ENSURE_INIT(next())] with [next()] returning null: two evaluations, and
    the counter of [next] ends at 2. *)
Lemma ensure_init_null_evaluates_twice_witness :
  evaluations (ENSURE_INIT glibc_fmt_p false "editor.cpp" 42 "next()"
                 (counted (next nullptr)) (World (0, 0) "" "")) = 2
  /\ mem (final (ENSURE_INIT glibc_fmt_p false "editor.cpp" 42 "next()"
                   (next nullptr) (World 0 "" ""))) = 2.
Proof.
  apply (ensure_init_null_evaluates_twice glibc_fmt_p "editor.cpp" 42 "next()"
           (next nullptr) (World (0, 0) "" "") (World 1 "" "")).
  reflexivity.
Defined.

(** [ENSURE_INIT(next())] with [next()] returning the address 4096: one
    evaluation in a debug build, none in a release build. *)
Lemma ensure_init_build_modes_differ_witness :
  evaluations (ENSURE_INIT glibc_fmt_p false "editor.cpp" 42 "next()"
                 (counted (next 4096%N)) (World (0, 0) "" "")) = 1
  /\ ENSURE_INIT glibc_fmt_p false "editor.cpp" 42 "next()"
       (counted (next 4096%N)) (World (0, 0) "" "")
     <> ENSURE_INIT glibc_fmt_p true "editor.cpp" 42 "next()"
          (counted (next 4096%N)) (World (0, 0) "" "").
Proof.
  apply (proj2 (proj2 (ensure_init_build_modes_differ glibc_fmt_p "editor.cpp" 42
                         "next()" (next 4096%N) (World (0, 0) "" "")))
           4096%N (World 1 "" ""));
    [reflexivity | discriminate].
Defined.

(** ** [NOEXCEPT] *)

(** C8: the flag reads the other way round from its name.  Without
    [NOEXCEPT_ENABLED] the macro is [noexcept], and no exception leaves a call
    of a function declared with it; with [NOEXCEPT_ENABLED] the macro is empty,
    and a call does whatever the body does. *)
Theorem noexcept_polarity_inverted :
  NOEXCEPT false = noexcept
  /\ NOEXCEPT true = unspecified
  /\ (forall NOEXCEPT_ENABLED : bool,
         noexcept_operator (NOEXCEPT NOEXCEPT_ENABLED) = negb NOEXCEPT_ENABLED)
  /\ (forall (state exn A : Type) (body : M state exn A) w x w',
         call (NOEXCEPT false) body w <> Thrown x w')
  /\ (forall (state exn A : Type) (body : M state exn A) w,
         call (NOEXCEPT true) body w = body w).
Proof.
  repeat split.
  - now intros [].
  - intros state exn A body w x w'. simpl. unfold try_catch, std_terminate.
    destruct (body w); discriminate.
Qed.

(** An exception that leaves the body makes the two settings differ. *)
Lemma noexcept_toggle_differs_when_thrown {state exn A : Type}
    (body : M state exn A) (w : world state) x w' :
  body w = Thrown x w' ->
  call (NOEXCEPT false) body w = Terminated Terminate w'
  /\ call (NOEXCEPT true) body w = Thrown x w'.
Proof.
  intros H. simpl. unfold try_catch, std_terminate. now rewrite H.
Qed.




(** ** More on [EXPECTED_VOID] *)

Section ExpectedVoidMore.
Context {state exn : Type}.
Variable stdout_error : world state -> option (exn * string).
Variable indeterminate : expected_void.
Implicit Types (expr : expected_void -> M state exn expected_void).
Implicit Types (e : M state exn expected_void) (w : world state).

(** For an argument that does not use the name [expected]: the helper yields
    normally exactly when the argument yields success; and an exception leaves
    it only when it left the argument, or when the argument yielded an error
    and the message could not be written. *)
Theorem expected_void_yields_iff_success e w :
  (forall w1,
      EXPECTED_VOID stdout_error indeterminate (fun _ => e) w = Continue tt w1
      <-> e w = Continue has_value w1)
  /\ (forall x w',
         EXPECTED_VOID stdout_error indeterminate (fun _ => e) w = Thrown x w' ->
         e w = Thrown x w'
         \/ exists m w1 written,
              e w = Continue (unexpected m) w1
              /\ stdout_error w1 = Some (x, written)
              /\ w' = {| mem := mem w1; out := out w1 ++ written; err := err w1 |}).
Proof.
  split.
  - intros w1. unfold EXPECTED_VOID, bind, println, write_out, std_exit, ret.
    destruct (e w) as [[| m] w2 | x2 w2 | t w2];
      split; intros H; try discriminate H; try (inversion H; reflexivity).
    destruct (stdout_error w2) as [[x written] |]; discriminate H.
  - intros x w' H.
    destruct (e w) as [[| m] w1 | x1 w1 | t w1] eqn:E.
    + rewrite (expected_void_success _ _ (fun _ => e) _ _ E) in H. discriminate H.
    + destruct (stdout_error w1) as [[x1 written] |] eqn:Hs.
      * rewrite (expected_void_error_not_written _ _ (fun _ => e) _ _ _ _ _ E Hs) in H.
        inversion H. subst. right. exists m, w1, written. repeat split. exact Hs.
      * rewrite (expected_void_error_written _ _ (fun _ => e) _ _ _ E Hs) in H.
        discriminate H.
    + rewrite (expected_void_thrown _ _ (fun _ => e) _ _ _ E) in H.
      inversion H. now left.
    + rewrite (expected_void_terminated _ _ (fun _ => e) _ _ _ E) in H. discriminate H.
Qed.

(** For an argument that does not use the name [expected]: when the helper
    ends the process, either its argument did, in the same way, or the
    argument yielded an error and the helper left by [std::exit(1)] after
    writing the message: it never aborts and never exits with another
    status. *)
Theorem expected_void_only_exits_with_1 e w t w' :
  EXPECTED_VOID stdout_error indeterminate (fun _ => e) w = Terminated t w' ->
  e w = Terminated t w'
  \/ (t = Exit 1
      /\ exists m w1, e w = Continue (unexpected m) w1
                      /\ w' = {| mem := mem w1; out := out w1 ++ m ++ LF; err := err w1 |}).
Proof.
  intros H.
  destruct (e w) as [[| m] w1 | x w1 | t1 w1] eqn:E.
  - rewrite (expected_void_success _ _ (fun _ => e) _ _ E) in H. discriminate H.
  - destruct (stdout_error w1) as [[x1 written] |] eqn:Hs.
    + rewrite (expected_void_error_not_written _ _ (fun _ => e) _ _ _ _ _ E Hs) in H.
      discriminate H.
    + rewrite (expected_void_error_written _ _ (fun _ => e) _ _ _ E Hs) in H.
      inversion H. right. split; [reflexivity |]. exists m, w1. split; reflexivity.
  - rewrite (expected_void_thrown _ _ (fun _ => e) _ _ _ E) in H. discriminate H.
  - rewrite (expected_void_terminated _ _ (fun _ => e) _ _ _ E) in H.
    inversion H. now left.
Qed.

(** The helper never writes to the error stream and never changes memory, and
    it only appends to the standard output: at the end both are as one
    evaluation of the argument left them, and the standard output is what the
    argument left, followed by what the helper printed. *)
Theorem expected_void_frame expr w :
  err (final (EXPECTED_VOID stdout_error indeterminate expr w))
  = err (final (expr indeterminate w))
  /\ mem (final (EXPECTED_VOID stdout_error indeterminate expr w))
     = mem (final (expr indeterminate w))
  /\ exists printed,
       out (final (EXPECTED_VOID stdout_error indeterminate expr w))
       = out (final (expr indeterminate w)) ++ printed.
Proof.
  unfold EXPECTED_VOID, bind, println.
  destruct (expr indeterminate w) as [[| m] w1 | x w1 | t w1].
  - repeat split. exists "". simpl. now rewrite append_empty_r.
  - destruct (stdout_error w1) as [[x written] |].
    + repeat split. exists written. reflexivity.
    + repeat split. exists (format_text "{}" [m] ++ LF). reflexivity.
  - repeat split. exists "". simpl. now rewrite append_empty_r.
  - repeat split. exists "". simpl. now rewrite append_empty_r.
Qed.

(** For an argument that does not use the name [expected]: what follows a call
    of the helper runs, from the state the argument left, when the argument
    yields success; after an error whose message could be written the rest of
    the program is never reached, whatever it is. *)
Theorem expected_void_then {A : Type} e (rest : M state exn A) w :
  (forall w1, e w = Continue has_value w1 ->
              (EXPECTED_VOID stdout_error indeterminate (fun _ => e) ;; rest) w
              = rest w1)
  /\ (forall m w1, e w = Continue (unexpected m) w1 ->
                   stdout_error w1 = None ->
                   (EXPECTED_VOID stdout_error indeterminate (fun _ => e) ;; rest) w
                   = Terminated (Exit 1)
                       {| mem := mem w1; out := out w1 ++ m ++ LF; err := err w1 |}).
Proof.
  split.
  - intros w1 H. unfold bind at 1.
    now rewrite (expected_void_success _ _ (fun _ => e) _ _ H).
  - intros m w1 H Hs. unfold bind at 1.
    now rewrite (expected_void_error_written _ _ (fun _ => e) _ _ _ H Hs).
Qed.

(** For an argument that does not use the name [expected] and yields an error
    with message [m]: when the standard output can be written, the helper
    writes exactly [m] and a line feed to it and the process ends by
    [std::exit] with status 1; when it cannot, the exception of
    [std::println] leaves the helper and the process does not exit. *)
Theorem expected_void_error_path e w m w1 :
  e w = Continue (unexpected m) w1 ->
  (stdout_error w1 = None ->
   EXPECTED_VOID stdout_error indeterminate (fun _ => e) w
   = Terminated (Exit 1) {| mem := mem w1; out := out w1 ++ m ++ LF; err := err w1 |})
  /\ (forall x written,
         stdout_error w1 = Some (x, written) ->
         EXPECTED_VOID stdout_error indeterminate (fun _ => e) w
         = Thrown x {| mem := mem w1; out := out w1 ++ written; err := err w1 |}).
Proof.
  intros H. split.
  - intros Hs. exact (expected_void_error_written _ _ (fun _ => e) _ _ _ H Hs).
  - intros x written Hs.
    exact (expected_void_error_not_written _ _ (fun _ => e) _ _ _ _ _ H Hs).
Qed.
End ExpectedVoidMore.

(** [EXPECTED_VOID(save(unexpected("disk full")))] with the standard output
    closed: the exception of [std::println] leaves the helper. *)
Lemma expected_void_yields_iff_success_witness :
  save (unexpected "disk full") (World 0 "" "") = Thrown "system_error" (World 1 "" "")
  \/ exists m w1 written,
       save (unexpected "disk full") (World 0 "" "") = Continue (unexpected m) w1
       /\ closed_stdout w1 = Some ("system_error", written)
       /\ World 1 "" "" = {| mem := mem w1; out := out w1 ++ written; err := err w1 |}.
Proof.
  apply (proj2 (expected_void_yields_iff_success closed_stdout has_value
                  (save (unexpected "disk full")) (World 0 "" ""))
           "system_error" (World 1 "" "")).
  reflexivity.
Defined.

(** [EXPECTED_VOID(save(unexpected("disk full")))] ends the process, and not
    because [save] did. *)
Lemma expected_void_only_exits_with_1_witness :
  save (unexpected "disk full") (World 0 "" "")
  = Terminated (Exit 1) (World 1 ("disk full" ++ LF) "")
  \/ (Exit 1 = Exit 1
      /\ exists m w1,
           save (unexpected "disk full") (World 0 "" "") = Continue (unexpected m) w1
           /\ World 1 ("disk full" ++ LF) ""
              = {| mem := mem w1; out := out w1 ++ m ++ LF; err := err w1 |}).
Proof.
  apply (expected_void_only_exits_with_1 never_fails has_value
           (save (unexpected "disk full"))
           (World 0 "" "") (Exit 1) (World 1 ("disk full" ++ LF) "")).
  reflexivity.
Defined.

(** Two calls in a row, [EXPECTED_VOID(save(...)); EXPECTED_VOID(save(...));]:
    after a success the second call runs, after an error it does not and only
    the first message is printed. *)
Lemma expected_void_then_witness :
  (EXPECTED_VOID never_fails has_value (fun _ => save has_value) ;;
   EXPECTED_VOID never_fails has_value (fun _ => save (unexpected "second")))
    (World 0 "" "")
  = Terminated (Exit 1) (World 2 ("second" ++ LF) "")
  /\ (EXPECTED_VOID never_fails has_value (fun _ => save (unexpected "first")) ;;
      EXPECTED_VOID never_fails has_value (fun _ => save (unexpected "second")))
       (World 0 "" "")
     = Terminated (Exit 1) (World 1 ("first" ++ LF) "").
Proof.
  split.
  - apply (proj1 (expected_void_then never_fails has_value (save has_value)
                    (EXPECTED_VOID never_fails has_value
                       (fun _ => save (unexpected "second")))
                    (World 0 "" ""))
             (World 1 "" "")).
    reflexivity.
  - apply (proj2 (expected_void_then never_fails has_value
                    (save (unexpected "first"))
                    (EXPECTED_VOID never_fails has_value
                       (fun _ => save (unexpected "second")))
                    (World 0 "" ""))
             "first" (World 1 "" "")); reflexivity.
Defined.

(** [EXPECTED_VOID(save(unexpected("disk full")))]: one line and exit status 1
    when the standard output can be written, the exception of [std::println]
    when it is closed. *)
Lemma expected_void_error_path_witness :
  EXPECTED_VOID never_fails has_value (fun _ => save (unexpected "disk full"))
    (World 0 "" "")
  = Terminated (Exit 1) (World 1 ("disk full" ++ LF) "")
  /\ EXPECTED_VOID closed_stdout has_value (fun _ => save (unexpected "disk full"))
       (World 0 "" "")
     = Thrown "system_error" (World 1 "" "").
Proof.
  split.
  - apply (proj1 (expected_void_error_path never_fails has_value
                    (save (unexpected "disk full")) (World 0 "" "")
                    "disk full" (World 1 "" "") eq_refl)).
    reflexivity.
  - apply (proj2 (expected_void_error_path closed_stdout has_value
                    (save (unexpected "disk full")) (World 0 "" "")
                    "disk full" (World 1 "" "") eq_refl)
             "system_error" "").
    reflexivity.
Defined.

(** ** More on [ENSURE_INIT] *)

Section EnsureInitMore.
Context {state exn : Type}.
Variable fmt_p : pointer -> string.
Variables (file : string) (line : N) (text : string).
Implicit Types (ptr : M state exn pointer) (w : world state).

(** For an argument without side effects, the debug build and the release
    build behave the same exactly when the pointer is not null. *)
Theorem ensure_init_builds_agree_iff_nonnull ptr w v :
  ptr w = Continue v w ->
  (ENSURE_INIT fmt_p false file line text ptr w
   = ENSURE_INIT fmt_p true file line text ptr w
   <-> v <> nullptr).
Proof.
  intros H. rewrite ensure_init_release. split.
  - intros Hd Hv. subst v.
    rewrite (ensure_init_debug_null fmt_p file line text _ _ _ H) in Hd.
    unfold bind, fprintf_stderr, bind, write_err, ret, std_abort in Hd.
    rewrite H in Hd. discriminate Hd.
  - intros Hv. exact (ensure_init_debug_nonnull fmt_p file line text _ _ _ _ H Hv).
Qed.

(** Guarding the same pointer twice in a row is the same as guarding it once,
    when the argument has no side effects: a null pointer is reported at the
    first guard, with the first guard's file, line and text, and the second
    guard is never reached. *)
Theorem ensure_init_repeated (NDEBUG : bool) (file' : string) (line' : N)
    (text' : string) ptr w v :
  ptr w = Continue v w ->
  (ENSURE_INIT fmt_p NDEBUG file line text ptr ;;
   ENSURE_INIT fmt_p NDEBUG file' line' text' ptr) w
  = ENSURE_INIT fmt_p NDEBUG file line text ptr w.
Proof.
  intros H. destruct NDEBUG; [reflexivity |].
  unfold bind at 1.
  destruct (N.eq_dec v nullptr) as [-> | Hv].
  - rewrite (ensure_init_debug_null fmt_p file line text _ _ _ H).
    unfold bind, fprintf_stderr, bind, write_err, ret, std_abort.
    now rewrite H.
  - rewrite (ensure_init_debug_nonnull fmt_p file line text _ _ _ _ H Hv).
    exact (ensure_init_debug_nonnull fmt_p file' line' text' _ _ _ _ H Hv).
Qed.

(** Debug build, null pointer: when the second evaluation of the argument
    throws or ends the process, that is how the guard ends; no diagnostic is
    written and [std::abort] is not called. *)
Theorem ensure_init_second_evaluation_escapes ptr w w1 :
  ptr w = Continue nullptr w1 ->
  (forall x w2, ptr w1 = Thrown x w2 ->
                ENSURE_INIT fmt_p false file line text ptr w = Thrown x w2)
  /\ (forall t w2, ptr w1 = Terminated t w2 ->
                   ENSURE_INIT fmt_p false file line text ptr w = Terminated t w2).
Proof.
  intros H.
  rewrite (ensure_init_debug_null fmt_p file line text _ _ _ H).
  split; intros ? w2 H2; unfold bind; now rewrite H2.
Qed.

(** The guard never writes to the standard output: when the argument leaves
    the standard output alone, so does the guard, in both builds and whether
    the pointer is null or not. *)
Theorem ensure_init_stdout_untouched (NDEBUG : bool) ptr w :
  (forall w', out (final (ptr w')) = out w') ->
  out (final (ENSURE_INIT fmt_p NDEBUG file line text ptr w)) = out w.
Proof.
  intros Hout. destruct NDEBUG; [reflexivity |].
  pose proof (Hout w) as H1.
  unfold ENSURE_INIT, bind at 1.
  destruct (ptr w) as [v w1 | x w1 | t w1]; simpl in H1; try exact H1.
  destruct (to_bool v); [exact H1 |].
  pose proof (Hout w1) as H2.
  unfold bind, fprintf_stderr, bind, write_err, ret, std_abort.
  destruct (ptr w1) as [v2 w2 | x w2 | t w2]; simpl in *; congruence.
Qed.
End EnsureInitMore.

Section EnsureInitCountMore.
Context {state exn : Type}.
Variable fmt_p : pointer -> string.
Variables (file : string) (line : N) (text : string).
Implicit Types (ptr : M state exn pointer) (cw : world (nat * state)).

(** A debug build never evaluates the argument more than twice, and it
    evaluates it twice exactly when the first evaluation yields the null
    pointer. *)
Theorem ensure_init_twice_iff_null ptr cw :
  evaluations (ENSURE_INIT fmt_p false file line text (counted ptr) cw)
    <= S (S (fst (mem cw)))
  /\ (evaluations (ENSURE_INIT fmt_p false file line text (counted ptr) cw)
      = S (S (fst (mem cw)))
      <-> exists w1, ptr (forget cw) = Continue nullptr w1).
Proof.
  split.
  - apply (ensure_init_debug_count_bounds fmt_p file line text ptr cw).
  - split.
    + intros Hn.
      destruct (ptr (forget cw)) as [v w1 | x w1 | t w1] eqn:H.
      * destruct (N.eq_dec v nullptr) as [-> | Hv]; [now exists w1 |].
        rewrite (ensure_init_debug_nonnull_count fmt_p file line text _ _ _ _ H Hv) in Hn.
        lia.
      * unfold evaluations, ENSURE_INIT, bind, counted in Hn.
        rewrite H in Hn. simpl in Hn. lia.
      * unfold evaluations, ENSURE_INIT, bind, counted in Hn.
        rewrite H in Hn. simpl in Hn. lia.
    + intros [w1 H].
      exact (ensure_init_debug_null_count fmt_p file line text _ _ _ H).
Qed.
End EnsureInitCountMore.

(** [ENSURE_INIT(p)] with [p] a variable: null in the first run, the address
    4096 in the second. *)
Lemma ensure_init_builds_agree_iff_nonnull_witness :
  (ENSURE_INIT glibc_fmt_p false "editor.cpp" 42 "p" read_p (World 4096%N "" "")
   = ENSURE_INIT glibc_fmt_p true "editor.cpp" 42 "p" read_p (World 4096%N "" "")
   <-> 4096%N <> nullptr)
  /\ (ENSURE_INIT glibc_fmt_p false "editor.cpp" 42 "p" read_p (World nullptr "" "")
      = ENSURE_INIT glibc_fmt_p true "editor.cpp" 42 "p" read_p (World nullptr "" "")
      <-> nullptr <> nullptr).
Proof.
  split.
  - apply (ensure_init_builds_agree_iff_nonnull glibc_fmt_p "editor.cpp" 42 "p"
             read_p (World 4096%N "" "") 4096%N).
    reflexivity.
  - apply (ensure_init_builds_agree_iff_nonnull glibc_fmt_p "editor.cpp" 42 "p"
             read_p (World nullptr "" "") nullptr).
    reflexivity.
Defined.

(** [ENSURE_INIT(p); ENSURE_INIT(p);] on lines 42 and 43 with [p] null: the
    diagnostic names line 42. *)
Lemma ensure_init_repeated_witness :
  (ENSURE_INIT glibc_fmt_p false "editor.cpp" 42 "p" read_p ;;
   ENSURE_INIT glibc_fmt_p false "editor.cpp" 43 "p" read_p) (World nullptr "" "")
  = Terminated Abort
      (World nullptr ""
         ("[editor.cpp:42] Uninitialised pointer: p (value=(nil))" ++ LF)).
Proof.
  apply (ensure_init_repeated glibc_fmt_p "editor.cpp" 42 "p" false "editor.cpp" 43 "p"
           read_p (World nullptr "" "") nullptr).
  reflexivity.
Defined.

(** [ENSURE_INIT(take())]: the first call of [take] returns null, the second
    throws, and the exception leaves the guard with nothing written. *)
Lemma ensure_init_second_evaluation_escapes_witness :
  ENSURE_INIT glibc_fmt_p false "editor.cpp" 42 "take()" take (World 0 "" "")
  = Thrown "gone" (World 2 "" "").
Proof.
  apply (proj1 (ensure_init_second_evaluation_escapes glibc_fmt_p "editor.cpp" 42
                  "take()" take (World 0 "" "") (World 1 "" "") eq_refl)
           "gone" (World 2 "" "")).
  reflexivity.
Defined.

(** [ENSURE_INIT(next())] with [next()] returning null: the diagnostic goes to
    the error stream, the standard output stays as it was. *)
Lemma ensure_init_stdout_untouched_witness :
  out (final (ENSURE_INIT glibc_fmt_p false "editor.cpp" 42 "next()"
                (next nullptr) (World 0 "so far" ""))) = "so far".
Proof.
  apply (ensure_init_stdout_untouched glibc_fmt_p "editor.cpp" 42 "next()" false
           (next nullptr) (World 0 "so far" "")).
  intros w'. reflexivity.
Defined.

(** ** The diagnostic is one line *)

Lemma occurrences_app (c : ascii) (a b : string) :
  occurrences c (a ++ b) = occurrences c a + occurrences c b.
Proof.
  induction a as [| c' a IH]; simpl; [reflexivity | rewrite IH; lia].
Qed.

Lemma append_assoc_r (a b c : string) : (a ++ b) ++ c = a ++ (b ++ c).
Proof.
  induction a as [| x a IH]; simpl; [reflexivity | now rewrite IH].
Qed.

Lemma digits_no_LF (d : Decimal.uint) :
  occurrences LF_char (NilEmpty.string_of_uint d) = 0.
Proof.
  induction d; simpl; auto.
Qed.

Lemma fmt_d_no_LF (n : Z) : occurrences LF_char (fmt_d n) = 0.
Proof.
  unfold fmt_d, NilZero.string_of_int, NilZero.string_of_uint.
  destruct (Z.to_int n) as [d | d]; destruct d; simpl; auto using digits_no_LF.
Qed.

(** When the file name, the text of the argument and the printed address hold
    no line feed, the diagnostic is a single line: its only line feed is its
    last character. *)
Theorem diagnostic_line_single_line (fmt_p : pointer -> string) (file : string)
    (line : N) (expr : string) (addr : pointer) :
  occurrences LF_char file = 0 ->
  occurrences LF_char expr = 0 ->
  occurrences LF_char (fmt_p addr) = 0 ->
  exists body,
    printf_text fmt_p ("[%s:%d] Uninitialised pointer: %s (value=%p)" ++ LF)
      [arg_s file; arg_d (Z.of_N line); arg_s expr; arg_p addr]
    = body ++ LF
    /\ occurrences LF_char body = 0.
Proof.
  intros Hf He Hp.
  exists ("[" ++ file ++ ":" ++ fmt_d (Z.of_N line) ++ "] Uninitialised pointer: "
              ++ expr ++ " (value=" ++ fmt_p addr ++ ")").
  split.
  - rewrite guard_format. unfold diagnostic_line.
    simpl. repeat (rewrite append_assoc_r; simpl).
    reflexivity.
  - repeat (rewrite occurrences_app; simpl).
    rewrite Hf, He, Hp, fmt_d_no_LF. reflexivity.
Qed.

Lemma diagnostic_line_single_line_witness :
  exists body,
    printf_text glibc_fmt_p ("[%s:%d] Uninitialised pointer: %s (value=%p)" ++ LF)
      [arg_s "editor.cpp"; arg_d (Z.of_N 42); arg_s "p"; arg_p nullptr]
    = body ++ LF
    /\ occurrences LF_char body = 0.
Proof.
  apply (diagnostic_line_single_line glibc_fmt_p "editor.cpp" 42 "p" nullptr);
    reflexivity.
Defined.

(** ** More on [NOEXCEPT] *)

Section NoexceptMore.
Context {state exn A : Type}.
Implicit Types (body : M state exn A) (w : world state).

Lemma call_not_thrown (spec : exception_specification) body w :
  (forall x w', body w <> Thrown x w') ->
  call spec body w = body w.
Proof.
  intros H. destruct spec; [| reflexivity].
  simpl. unfold try_catch.
  destruct (body w) as [a w1 | x w1 | t w1] eqn:E; try reflexivity.
  now destruct (H x w1).
Qed.

(** Without [NOEXCEPT_ENABLED], a handler around a call of a function declared
    with [NOEXCEPT] never runs; and under either setting, a function declared
    with [NOEXCEPT] that only calls another one behaves as that one. *)
Theorem noexcept_handler_never_runs body (handler : exn -> M state exn A) w :
  try_catch (call (NOEXCEPT false) body) handler w = call (NOEXCEPT false) body w
  /\ (forall NOEXCEPT_ENABLED : bool,
         call (NOEXCEPT NOEXCEPT_ENABLED) (call (NOEXCEPT NOEXCEPT_ENABLED) body) w
         = call (NOEXCEPT NOEXCEPT_ENABLED) body w).
Proof.
  split.
  - simpl. unfold try_catch, std_terminate. destruct (body w); reflexivity.
  - intros []; [reflexivity |].
    simpl. unfold try_catch, std_terminate. destruct (body w); reflexivity.
Qed.
End NoexceptMore.

Section MacrosInNoexcept.
Context {state exn : Type}.
Variable fmt_p : pointer -> string.
Variable stdout_error : world state -> option (exn * string).
Variable indeterminate : expected_void.
Variables (file : string) (line : N) (text : string).

End MacrosInNoexcept.

